(** * Relevant Segment Extraction: the notebook's helper functions

    A shallow embedding of the code cells of the "Relevant Segment
    Extraction (RSE)" notebook (second document of
    [all_rag_techniques/simple_rag.ipynb]): [get_best_segments],
    [rerank_chunks] and the chunk value it computes, [split_into_chunks]
    and [print_document_segment].

    Each function is modelled as its [def] statement is written, slips
    included: a name that no cell binds is looked up and raises
    [NameError], and a function whose body ends without a [return]
    returns [None].

    Python values are modelled as follows: [int] as [Z], [float] as the
    IEEE binary64 numbers of [PrimFloat] (as real numbers where the
    exponential is involved), [str] as [string], lists as [list], [None]
    as [None], a raised exception as the [Raise] constructor of [result].

    The first part holds the definitions, the second part the lemmas and
    theorems. *)

From Stdlib Require Import Reals Lra.
From Stdlib Require Import ZArith List Bool String Ascii Lia Floats.
From Stdlib Require Import DecimalString.
Import ListNotations.
Local Open Scope Z_scope.

Set Warnings "-inexact-float".

(** * Part I: definitions *)

(** ** The Python runtime *)

Module Py.

Inductive exn : Type :=
| NameError (name : string)
| TypeError (msg : string)
| IndexError.

Inductive result (A : Type) : Type :=
| Ok (a : A)
| Raise (e : exn).

Arguments Ok {A} a.
Arguments Raise {A} e.

Definition bind {A B : Type} (c : result A) (k : A -> result B) : result B :=
  match c with
  | Ok a => k a
  | Raise e => Raise e
  end.

Definition raises {A : Type} (c : result A) : Prop :=
  exists e, c = Raise e.

(** A [for] loop whose body may raise: the state is threaded through the
    iterations, [continue] is the body returning the state unchanged. *)
Fixpoint for_each {S X : Type} (xs : list X) (body : S -> X -> result S)
  (s : S) : result S :=
  match xs with
  | [] => Ok s
  | x :: xs' => bind (body s x) (for_each xs' body)
  end.

(** [range(lo, hi)] *)
Definition range (lo hi : Z) : list Z :=
  map (fun k => lo + Z.of_nat k) (seq 0 (Z.to_nat (hi - lo))).

(** [len(xs)] *)
Definition len {A : Type} (xs : list A) : Z := Z.of_nat (List.length xs).

(** [xs[i]]: a negative index counts from the end, an index out of range
    raises [IndexError]. *)
Definition getitem {A : Type} (xs : list A) (i : Z) : result A :=
  let j := if i <? 0 then i + len xs else i in
  if j <? 0 then Raise IndexError
  else match nth_error xs (Z.to_nat j) with
       | Some x => Ok x
       | None => Raise IndexError
       end.

(** [xs[lo:hi]]: bounds are clamped to the list, negative ones count from
    the end. *)
Definition slice {A : Type} (xs : list A) (lo hi : Z) : list A :=
  let clamp i := Z.max 0 (Z.min (len xs) (if i <? 0 then i + len xs else i)) in
  firstn (Z.to_nat (clamp hi - clamp lo)) (skipn (Z.to_nat (clamp lo)) xs).

(** [sum(xs)]: the items are added from left to right, starting from
    zero. *)
Definition py_sum (xs : list float) : float :=
  fold_left PrimFloat.add xs PrimFloat.zero.

End Py.

Import Py.

Declare Scope py_scope.
Delimit Scope py_scope with py.
Notation "x <- c ;; k" := (bind c (fun x => k))
  (at level 61, c at next level, right associativity) : py_scope.
Local Open Scope py_scope.

(** ** The segment search: [get_best_segments]

    The two nested [for] loops and the [while] loop are written over the
    test that decides whether a candidate window overlaps an already
    selected segment; the source's own expression is plugged in below
    ([any_overlap], [get_best_segments]). *)

Definition segment : Type := (Z * Z)%type.

(** The pair [(best_segment, best_value)] of the inner search;
    [best_segment = None] is Python's [None]. *)
Definition best : Type := (option segment * float)%type.

Section Search.

Variable overlap_test : Z -> Z -> list segment -> result bool.

Variable relevance_values : list float.
Variables max_length overall_max_length : Z.
Variable minimum_value : float.

(** [sum(relevance_values[start:end])] *)
Definition segment_value (seg : segment) : float :=
  py_sum (slice relevance_values (fst seg) (snd seg)).

Section Iteration.

Variable best_segments : list segment.
Variable total_length : Z.

(** Body of [for end in range(start+1, min(start+max_length+1,
    len(relevance_values)+1))]. *)
Definition end_body (start : Z) (b : best) (end_ : Z) : result best :=
  last <- getitem relevance_values (end_ - 1) ;;
  (* Skip over negative value ending points *)
  if (last <? 0)%float then Ok b else
  (* skip the window if it overlaps one of the best segments *)
  overlapping <- overlap_test start end_ best_segments ;;
  if overlapping then Ok b else
  (* skip the window if it would push us over the overall max length *)
  if total_length + end_ - start >? overall_max_length then Ok b else
  let value := segment_value (start, end_) in
  if (snd b <? value)%float
  then Ok (Some (start, end_), value)
  else Ok b.

(** Body of [for start in range(len(relevance_values))]. *)
Definition start_body (b : best) (start : Z) : result best :=
  first <- getitem relevance_values start ;;
  (* Skip over negative value starting points *)
  if (first <? 0)%float then Ok b else
  for_each
    (range (start + 1)
           (Z.min (start + max_length + 1) (len relevance_values + 1)))
    (end_body start) b.

(** "find the best remaining segment": one pass of the two nested loops,
    started from [best_segment = None], [best_value = -1000]. *)
Definition find_best : result best :=
  for_each (range 0 (len relevance_values)) start_body
           (None, (-1000)%float).

End Iteration.

(** One evaluation of the condition and body of [while total_length <
    overall_max_length], on the locals [best_segments], [scores] and
    [total_length]; [continue] is the rest of the execution.  The value
    is the state of the locals [best_segments] and [scores] when the loop
    is left. *)
Definition while_step (best_segments : list segment) (scores : list float)
  (total_length : Z)
  (continue : list segment -> list float -> Z ->
              result (list segment * list float))
  : result (list segment * list float) :=
  if total_length <? overall_max_length then
    b <- find_best best_segments total_length ;;
    match b with
    | (None, _) => Ok (best_segments, scores)
    | (Some best_segment, best_value) =>
      if (best_value <? minimum_value)%float
      then Ok (best_segments, scores)
      else continue (best_segments ++ [best_segment])
                    (scores ++ [best_value])
                    (total_length + (snd best_segment - fst best_segment))
    end
  else Ok (best_segments, scores).

(** The [while] loop, run on the locals.  Every iteration that does not
    leave the loop adds at least one chunk to [total_length], so
    [fuel >= overall_max_length - total_length] iterations are never
    exhausted before the loop condition fails ([while_loop_fuel]). *)
Fixpoint while_loop (fuel : nat) (best_segments : list segment)
  (scores : list float) (total_length : Z)
  : result (list segment * list float) :=
  match fuel with
  | O => Ok (best_segments, scores)
  | S fuel' =>
    while_step best_segments scores total_length (while_loop fuel')
  end.

(** The body of the function: [best_segments = []], [scores = []],
    [total_length = 0] and the [while] loop.  The [def] statement ends
    with the loop: the line [return best_segments, scores] that follows
    it is written at column 0, outside the function.  A call that leaves
    the loop therefore returns [None], the value of a function that ends
    without a [return] statement, and the two lists are dropped. *)
Definition get_best_segments_with
  : result (option (list segment * list float)) :=
  locals <- while_loop (Z.to_nat overall_max_length) [] [] 0 ;;
  Ok None.

End Search.

(** *** The overlap test of the source

    [any(start < seg_end and end > seg_start, seg_end in best_segments)].
    The arguments of a call are evaluated from left to right before the
    call.  [seg_end] and [seg_start] are not locals of
    [get_best_segments], so they are read from the module's globals. *)

Definition globals : Type := string -> option Z.

Definition load_global (g : globals) (name : string) : result Z :=
  match g name with
  | Some v => Ok v
  | None => Raise (NameError name)
  end.

(** The builtin [any] called with the given positional arguments. *)
Definition builtin_any (args : list bool) : result bool :=
  match args with
  | [_] => Raise (TypeError "'bool' object is not iterable")
  | _ => Raise (TypeError "any() takes exactly one argument")
  end.

Definition any_overlap (g : globals) (start end_ : Z)
  (best_segments : list segment) : result bool :=
  seg_end <- load_global g "seg_end" ;;
  arg1 <- (if start <? seg_end
           then seg_start <- load_global g "seg_start" ;; Ok (end_ >? seg_start)
           else Ok false) ;;
  seg_end' <- load_global g "seg_end" ;;
  (* an integer is equal to none of the tuples of [best_segments] *)
  let arg2 := existsb (fun _ : segment => false) best_segments in
  builtin_any [arg1; arg2].

(** The integer-valued names bound at the top level of the notebook;
    no cell binds [seg_start] or [seg_end]. *)
Definition notebook_globals : globals :=
  fun name =>
    if String.eqb name "max_length" then Some 20
    else if String.eqb name "overall_max_length" then Some 30
    else None.

(** [get_best_segments(relevance_values, max_length, overall_max_length,
    minimum_value)], as its [def] statement is written: the overlap
    expression of line 617 as it stands, and no [return] statement. *)
Definition get_best_segments (relevance_values : list float)
  (max_length overall_max_length : Z) (minimum_value : float)
  : result (option (list segment * list float)) :=
  get_best_segments_with (any_overlap notebook_globals)
    relevance_values max_length overall_max_length minimum_value.

(** The window held by a pass, if any, has at least one chunk. *)
Definition advancing (b : best) : Prop :=
  match fst b with
  | Some w => fst w < snd w
  | None => True
  end.

(** ** The chunk value of [rerank_chunks]

    [chunk_values[index] = np.exp(-i/decay_rate)*absolute_relevance_value]
    where [i] is the rank of the chunk in the reranker's answer and
    [absolute_relevance_value = transform(relevance_score)].  The value is
    modelled over the real numbers.  The source computes it in binary64,
    where the exponential is rounded and, for ranks in the tens of
    thousands, underflows to [0.0]: the theorems on [chunk_value] state
    bounds and weak inequalities, which rounding preserves, and no strict
    inequality between the values at two ranks. *)

Section ChunkValue.

Local Open Scope R_scope.

(** [scipy.special.betainc(0.4, 0.4, x)], the regularised incomplete beta
    function that [beta.cdf] evaluates for [x] inside the support. *)
Variable betainc : R -> R.

(** [transform(x) = beta.cdf(x, 0.4, 0.4)]: the distribution function is
    [0] at and below the lower end of the support, [1] at and above its
    upper end, and the incomplete beta function in between. *)
Definition transform (x : R) : R :=
  if Rle_dec x 0 then 0
  else if Rle_dec 1 x then 1
  else betainc x.

Definition decay_rate : R := 30.

(** The value given to the chunk of rank [i] and raw relevance [raw]. *)
Definition chunk_value (i : nat) (raw : R) : R :=
  exp (- INR i / decay_rate) * transform raw.

End ChunkValue.

(** ** Chunking: [split_into_chunks]

    The splitter classes come from the [langchain_text_splitters] package,
    which is not part of the repository: a class is a parameter of the
    model, looked up under the name the source uses. *)

Record Document : Type := { page_content : string }.

Record TextSplitter : Type :=
  { create_documents : list string -> result (list Document) }.

(** [len(s)] for a string. *)
Definition str_len (s : string) : Z := Z.of_nat (String.length s).

(** A class of text splitters, called as [cls(x, chunk_overlap=..,
    length_function=..)] with one positional argument and two keyword
    arguments.  (The package's recursive splitter takes its list of
    separators as first positional parameter, not the chunk size.) *)
Definition splitter_class : Type :=
  Z -> Z -> (string -> Z) -> result TextSplitter.

(** The splitter classes that the names of a module are bound to. *)
Definition classes : Type := string -> option splitter_class.

Definition load_class (c : classes) (name : string)
  : result splitter_class :=
  match c name with
  | Some cls => Ok cls
  | None => Raise (NameError name)
  end.

Section Chunker.

Variable c : classes.

Definition split_into_chunks_with (text : string) (chunk_size : Z)
  : result (list string) :=
  RecursiveCharacterTextSpliter <-
    load_class c "RecursiveCharacterTextSpliter" ;;
  text_splitter <- RecursiveCharacterTextSpliter chunk_size 0 str_len ;;
  texts <- create_documents text_splitter [text] ;;
  let chunks := map page_content texts in
  Ok chunks.

End Chunker.

(** The classes bound in the notebook.  Its only import of a splitter,
    [from langchain_text_splitters import RecursiveCharacterTextSpliter],
    names a class that the package does not define (the class is
    [RecursiveCharacterTextSplitter], as [encode_pdf] of the first
    notebook spells it): the statement raises [ImportError] and binds
    nothing. *)
Definition notebook_classes : classes := fun _ => None.

(** [split_into_chunks(text, chunk_size)], as its [def] statement is
    written. *)
Definition split_into_chunks (text : string) (chunk_size : Z)
  : result (list string) :=
  split_into_chunks_with notebook_classes text chunk_size.

(** The example of the docstring of [split_into_chunks], called with
    [chunk_size=10]. *)
Definition docstring_text : string :=
  "This is a sample text to be split into chunks.".

Definition docstring_chunks : list string :=
  ["This is a"; "sample"; "text to"; "be split"; "into"; "chunks."]%string.

(** ** More of the Python runtime *)

(** [xs[i] = v]: a negative index counts from the end, an index out of
    range raises [IndexError]. *)
Definition setitem {A : Type} (xs : list A) (i : Z) (v : A)
  : result (list A) :=
  let j := if i <? 0 then i + len xs else i in
  if (j <? 0) || (len xs <=? j) then Raise IndexError
  else Ok (firstn (Z.to_nat j) xs ++ v :: skipn (S (Z.to_nat j)) xs).

(** [enumerate(xs)] *)
Definition enumerate {A : Type} (xs : list A) : list (Z * A) :=
  combine (range 0 (len xs)) xs.

(** [str(i)] for an integer, as an f-string formats it. *)
Definition str_of_int (i : Z) : string :=
  NilZero.string_of_int (Z.to_int i).

(** What a run has printed, one item for each call of [print], and the
    exception that ended it, if any. *)
Definition printed : Type := (list string * option exn)%type.

(** ** Reranking: [rerank_chunks]

    The Cohere client is taken as constructed, and its answer to the
    call of [rerank] is a parameter of the function.  Relevance scores
    and chunk values are modelled over the real numbers, as for
    [chunk_value]. *)

Module Cohere.

(** One item of [reranked_results.results]. *)
Record RerankResult : Type := { index : Z; relevance_score : R }.

End Cohere.

Section Rerank.

Variable betainc : R -> R.

(** [client.rerank(model=.., query=.., documents=..).results] *)
Variable client_rerank :
  string -> string -> list string -> list Cohere.RerankResult.

(** Body of [for i, index in enumerate(reranked_indices)]. *)
Definition rerank_body (reranked_similarity_scores : list R)
  (st : list R * list R) (item : Z * Z) : result (list R * list R) :=
  let '(similarity_scores, chunk_values) := st in
  let '(i, index) := item in
  score <- getitem reranked_similarity_scores i ;;
  let absolute_relevance_value := transform betainc score in
  similarity_scores <-
    setitem similarity_scores index absolute_relevance_value ;;
  (* decay the relevance value based on the rank *)
  chunk_values <-
    setitem chunk_values index
            (exp (- IZR i / decay_rate) * absolute_relevance_value)%R ;;
  Ok (similarity_scores, chunk_values).

Definition rerank_chunks (query : string) (chunks : list string)
  : result (list R * list R) :=
  let model := "rerank-english-v3.0"%string in
  let results := client_rerank model query chunks in
  let reranked_indices := map Cohere.index results in
  (* in order of reranked_indices *)
  let reranked_similarity_scores := map Cohere.relevance_score results in
  (* Convert back to order of original documents and calculate the chunk
     values *)
  let similarity_scores := repeat 0%R (List.length chunks) in
  let chunk_values := repeat 0%R (List.length chunks) in
  for_each (enumerate reranked_indices)
           (rerank_body reranked_similarity_scores)
           (similarity_scores, chunk_values).

End Rerank.

(** A reranker's answer for two chunks, the second one ranked first. *)
Definition two_results (model query : string) (documents : list string)
  : list Cohere.RerankResult :=
  [ {| Cohere.index := 1; Cohere.relevance_score := 1 |};
    {| Cohere.index := 0; Cohere.relevance_score := 0 |} ].

(** ** Printing a segment: [print_document_segment] *)

(** [f"\nChunk {i}"] *)
Definition chunk_header (i : Z) : string :=
  (String "010" "Chunk " ++ str_of_int i)%string.

(** The loop [for i in range(start_index, end_index)] over the indices
    that are left; [out] is what has been printed so far. *)
Fixpoint print_chunks (chunks : list string) (indices : list Z)
  (out : list string) : printed :=
  match indices with
  | [] => (out, None)
  | i :: rest =>
    let out := out ++ [chunk_header i] in
    match getitem chunks i with
    | Ok text => print_chunks chunks rest (out ++ [text])
    | Raise e => (out, Some e)
    end
  end.

Definition print_document_segment (chunks : list string)
  (start_index end_index : Z) : printed :=
  print_chunks chunks (range start_index end_index) [].

(** The header and the text of each chunk of [chunks[start:end]], in
    index order. *)
Definition segment_printout (chunks : list string) (start end_ : Z)
  : list string :=
  flat_map (fun item : Z * string => [chunk_header (fst item); snd item])
           (combine (range start end_) (slice chunks start end_)).

(** ** Auxiliary definitions *)

(** The list [xs] with [v] at position [n]. *)
Fixpoint upd {A : Type} (xs : list A) (n : nat) (v : A) : list A :=
  match xs, n with
  | [], _ => []
  | _ :: rest, O => v :: rest
  | x :: rest, S n' => x :: upd rest n' v
  end.

(** The position that [xs[i] = v] writes, for a list of length [n]. *)
Definition position (n i : Z) : nat :=
  Z.to_nat (if i <? 0 then i + n else i).

(** The items of [enumerate], counted from [lo]. *)
Definition items {A : Type} (lo : Z) (xs : list A) : list (Z * A) :=
  combine (range lo (lo + len xs)) xs.

(** A similarity score and the chunk value written with it. *)
Definition decayed_pair (s c : R) : Prop := (0 <= c <= s /\ s <= 1)%R.

(** * Part II: lemmas and theorems *)

(** ** The Python runtime *)

Lemma in_range (lo hi k : Z) : In k (range lo hi) <-> lo <= k < hi.
Proof.
  unfold range. rewrite in_map_iff. split.
  - intros (n & <- & Hn). apply in_seq in Hn. lia.
  - intros Hk. exists (Z.to_nat (k - lo)). split; [lia|].
    apply in_seq. lia.
Qed.

Lemma range_empty (lo hi : Z) : hi <= lo -> range lo hi = [].
Proof.
  intros H. unfold range. replace (Z.to_nat (hi - lo)) with O by lia.
  reflexivity.
Qed.

Lemma range_cons (lo hi : Z) :
  lo < hi -> range lo hi = lo :: range (lo + 1) hi.
Proof.
  intros H. unfold range.
  replace (Z.to_nat (hi - lo)) with (S (Z.to_nat (hi - (lo + 1)))) by lia.
  simpl. f_equal; [lia|].
  rewrite <- seq_shift, map_map. apply map_ext. intros k. lia.
Qed.

Lemma getitem_ok {A : Type} (xs : list A) (i : Z) :
  0 <= i < len xs -> exists x, getitem xs i = Ok x /\ In x xs.
Proof.
  unfold getitem, len. intros Hi.
  destruct (Z.ltb_spec i 0) as [Hneg|Hneg]; [lia|].
  destruct (Z.ltb_spec i 0) as [Hneg'|_]; [lia|].
  destruct (nth_error xs (Z.to_nat i)) as [x|] eqn:Hnth.
  - exists x. split; [reflexivity|]. eapply nth_error_In; eassumption.
  - apply nth_error_None in Hnth. lia.
Qed.

Lemma getitem_nth {A : Type} (xs : list A) (n : nat) (x : A) :
  nth_error xs n = Some x -> getitem xs (Z.of_nat n) = Ok x.
Proof.
  intros Hn. unfold getitem.
  destruct (Z.ltb_spec (Z.of_nat n) 0) as [Hneg|Hneg]; [lia|].
  destruct (Z.ltb_spec (Z.of_nat n) 0) as [Hneg'|_]; [lia|].
  rewrite Nat2Z.id, Hn. reflexivity.
Qed.

(** A slice whose bounds lie inside the list. *)
Lemma slice_in_range {A : Type} (xs : list A) (lo hi : Z) :
  0 <= lo -> lo <= hi -> hi <= len xs ->
  slice xs lo hi = firstn (Z.to_nat (hi - lo)) (skipn (Z.to_nat lo) xs).
Proof.
  intros H0 H1 H2. unfold slice.
  destruct (Z.ltb_spec lo 0); [lia|].
  destruct (Z.ltb_spec hi 0); [lia|].
  replace (Z.max 0 (Z.min (len xs) hi)) with hi by lia.
  replace (Z.max 0 (Z.min (len xs) lo)) with lo by lia.
  reflexivity.
Qed.

(** An invariant of the loop state holds at the end of a [for] loop that
    completes. *)
Lemma for_each_inv {S X : Type} (P : S -> Prop) (body : S -> X -> result S)
  (xs : list X) :
  (forall s x s', In x xs -> P s -> body s x = Ok s' -> P s') ->
  forall s s', P s -> for_each xs body s = Ok s' -> P s'.
Proof.
  induction xs as [|x xs IH]; simpl; intros Hbody s s' Hs Hrun.
  - congruence.
  - destruct (body s x) as [s1|e] eqn:Hx; simpl in Hrun; [|discriminate].
    apply (IH (fun s0 y s0' Hy => Hbody s0 y s0' (or_intror Hy)) s1 s');
      [|assumption].
    eapply Hbody; [left; reflexivity|eassumption|eassumption].
Qed.

(** A [for] loop whose body leaves the state as it is. *)
Lemma for_each_skip {S X : Type} (body : S -> X -> result S) (xs : list X)
  (s : S) :
  (forall x, In x xs -> body s x = Ok s) -> for_each xs body s = Ok s.
Proof.
  induction xs as [|x xs IH]; simpl; intros Hbody; [reflexivity|].
  rewrite (Hbody x (or_introl eq_refl)). simpl.
  apply IH. intros y Hy. apply Hbody. right. exact Hy.
Qed.

(** A [for] loop whose body either skips or raises [e] raises [e] as soon
    as one item makes the body raise. *)
Lemma for_each_skip_or_raise {S X : Type} (body : S -> X -> result S)
  (xs : list X) (s : S) (e : exn) :
  (forall x, In x xs -> body s x = Ok s \/ body s x = Raise e) ->
  (exists x, In x xs /\ body s x = Raise e) ->
  for_each xs body s = Raise e.
Proof.
  induction xs as [|x xs IH]; simpl; intros Hall (y & Hy & Hraise).
  - contradiction.
  - destruct (Hall x (or_introl eq_refl)) as [Hx|Hx]; rewrite Hx; simpl;
      [|reflexivity].
    apply IH.
    + intros z Hz. apply Hall. right. exact Hz.
    + destruct Hy as [<-|Hy]; [congruence|]. exists y. split; assumption.
Qed.

(** ** Item assignment, [enumerate], slices and printing *)

Lemma upd_splice {A : Type} (xs : list A) (n : nat) (v : A) :
  (n < List.length xs)%nat ->
  firstn n xs ++ v :: skipn (S n) xs = upd xs n v.
Proof.
  revert n. induction xs as [|x xs IH]; intros [|n] Hn; simpl in *;
    try lia; try reflexivity.
  f_equal. apply IH. lia.
Qed.

Lemma length_upd {A : Type} (xs : list A) (n : nat) (v : A) :
  List.length (upd xs n v) = List.length xs.
Proof.
  revert n. induction xs as [|x xs IH]; intros [|n]; simpl; auto.
Qed.

Lemma nth_error_upd_eq {A : Type} (xs : list A) (n : nat) (v : A) :
  (n < List.length xs)%nat -> nth_error (upd xs n v) n = Some v.
Proof.
  revert n. induction xs as [|x xs IH]; intros [|n] Hn; simpl in *;
    try lia; try reflexivity.
  apply IH. lia.
Qed.

Lemma nth_error_upd_neq {A : Type} (xs : list A) (n k : nat) (v : A) :
  k <> n -> nth_error (upd xs n v) k = nth_error xs k.
Proof.
  revert n k. induction xs as [|x xs IH]; intros [|n] [|k] Hk; simpl;
    try reflexivity; try congruence.
  apply IH. congruence.
Qed.

Lemma Forall2_upd {A B : Type} (P : A -> B -> Prop) (xs : list A)
  (ys : list B) (n : nat) (a : A) (b : B) :
  Forall2 P xs ys -> P a b -> Forall2 P (upd xs n a) (upd ys n b).
Proof.
  intros H Hab. revert n.
  induction H as [|x y xs ys Hxy Hrest IH]; intros [|n]; simpl;
    try constructor; auto.
Qed.

Lemma setitem_in_range {A : Type} (xs : list A) (i : Z) (v : A) :
  - len xs <= i < len xs ->
  setitem xs i v = Ok (upd xs (position (len xs) i) v) /\
  (position (len xs) i < List.length xs)%nat.
Proof.
  intros Hi. unfold setitem, position.
  set (j := if i <? 0 then i + len xs else i).
  assert (Hj : 0 <= j < len xs)
    by (unfold j; destruct (Z.ltb_spec i 0); lia).
  destruct (Z.ltb_spec j 0); [lia|].
  destruct (Z.leb_spec (len xs) j); [lia|].
  cbn [orb]. unfold len in Hj. split; [|lia].
  rewrite upd_splice by lia. reflexivity.
Qed.

Lemma setitem_out_of_range {A : Type} (xs : list A) (i : Z) (v : A) :
  ~ (- len xs <= i < len xs) -> setitem xs i v = Raise IndexError.
Proof.
  intros Hi. unfold setitem.
  set (j := if i <? 0 then i + len xs else i).
  assert (Hj : j < 0 \/ len xs <= j)
    by (unfold j; destruct (Z.ltb_spec i 0); lia).
  destruct (Z.ltb_spec j 0); [reflexivity|].
  destruct (Z.leb_spec (len xs) j); [reflexivity|lia].
Qed.

Lemma items_cons {A : Type} (lo : Z) (x : A) (xs : list A) :
  items lo (x :: xs) = (lo, x) :: items (lo + 1) xs.
Proof.
  unfold items. assert (Hlen : len (x :: xs) = 1 + len xs)
    by (unfold len; simpl List.length; lia).
  rewrite range_cons by (unfold len in *; lia). simpl.
  rewrite Hlen. do 3 f_equal. lia.
Qed.

Lemma items_nil {A : Type} (lo : Z) : items lo (@nil A) = [].
Proof. unfold items. rewrite range_empty; [reflexivity|]. unfold len. simpl. lia. Qed.

Lemma enumerate_items {A : Type} (xs : list A) : enumerate xs = items 0 xs.
Proof. reflexivity. Qed.

Lemma for_each_cons {S X : Type} (body : S -> X -> result S) (x : X)
  (xs : list X) (s : S) :
  for_each (x :: xs) body s = bind (body s x) (for_each xs body).
Proof. reflexivity. Qed.

Lemma slice_cons {A : Type} (xs : list A) (start end_ : Z) :
  0 <= start -> start < end_ -> end_ <= len xs ->
  exists x, getitem xs start = Ok x /\
            slice xs start end_ = x :: slice xs (start + 1) end_.
Proof.
  intros H0 H1 H2.
  destruct (getitem_ok xs start) as (x & Hget & _); [lia|].
  exists x. split; [exact Hget|].
  rewrite !slice_in_range by lia.
  unfold getitem in Hget.
  destruct (Z.ltb_spec start 0); [lia|].
  destruct (Z.ltb_spec start 0); [lia|].
  destruct (nth_error xs (Z.to_nat start)) as [y|] eqn:Hnth; [|discriminate].
  injection Hget as ->.
  replace (Z.to_nat (end_ - start)) with (S (Z.to_nat (end_ - (start + 1))))
    by lia.
  replace (Z.to_nat (start + 1)) with (S (Z.to_nat start)) by lia.
  clear - Hnth. revert xs Hnth.
  induction (Z.to_nat start) as [|n IH]; intros [|y ys] Hnth;
    simpl in *; try discriminate.
  - injection Hnth as ->. reflexivity.
  - apply IH. exact Hnth.
Qed.

Lemma print_chunks_in_range (chunks : list string) (end_ : Z) (n : nat) :
  forall (start : Z) (out : list string),
    Z.of_nat n = end_ - start ->
    0 <= start -> end_ <= len chunks ->
    print_chunks chunks (range start end_) out =
    (out ++ segment_printout chunks start end_, None).
Proof.
  unfold segment_printout.
  induction n as [|n IH]; intros start out Hn H0 H1.
  - rewrite range_empty by lia. simpl. rewrite app_nil_r. reflexivity.
  - rewrite range_cons by lia.
    destruct (slice_cons chunks start end_) as (x & Hget & ->); try lia.
    simpl. rewrite Hget. rewrite IH by lia.
    rewrite <- !app_assoc. reflexivity.
Qed.

Lemma print_chunks_app (chunks : list string) (xs ys : list Z) :
  forall out,
    print_chunks chunks (xs ++ ys) out =
    match print_chunks chunks xs out with
    | (out', None) => print_chunks chunks ys out'
    | stopped => stopped
    end.
Proof.
  induction xs as [|i xs IH]; intros out; simpl; [reflexivity|].
  destruct (getitem chunks i); [apply IH|reflexivity].
Qed.

Lemma range_split (lo mid hi : Z) :
  lo <= mid <= hi -> range lo hi = range lo mid ++ range mid hi.
Proof.
  intros H. remember (Z.to_nat (mid - lo)) as n eqn:Hn.
  revert lo H Hn. induction n as [|n IH]; intros lo H Hn.
  - replace mid with lo by lia. rewrite (range_empty lo lo) by lia.
    reflexivity.
  - rewrite (range_cons lo hi), (range_cons lo mid) by lia.
    simpl. f_equal. apply IH; lia.
Qed.

Lemma getitem_past_end {A : Type} (xs : list A) :
  getitem xs (len xs) = Raise IndexError.
Proof.
  unfold getitem, len.
  destruct (Z.ltb_spec (Z.of_nat (List.length xs)) 0); [lia|].
  destruct (Z.ltb_spec (Z.of_nat (List.length xs)) 0); [lia|].
  rewrite Nat2Z.id.
  destruct (nth_error xs (List.length xs)) eqn:Hnth; [|reflexivity].
  assert (List.length xs < List.length xs)%nat
    by (apply nth_error_Some; congruence). lia.
Qed.

(** ** The search loops, for every overlap test *)

Section SearchFacts.

Variable overlap_test : Z -> Z -> list segment -> result bool.
Variable relevance_values : list float.
Variables max_length overall_max_length : Z.
Variable minimum_value : float.

Let find := find_best overlap_test relevance_values max_length
                      overall_max_length.
Let step := while_step overlap_test relevance_values max_length
                       overall_max_length minimum_value.
Let loop := while_loop overlap_test relevance_values max_length
                       overall_max_length minimum_value.

(** *** One pass of the nested loops *)

Section Pass.

Variable best_segments : list segment.
Variable total_length : Z.

Lemma end_body_advancing start b end_ b' :
  start < end_ -> advancing b ->
  end_body overlap_test relevance_values overall_max_length best_segments
           total_length start b end_ = Ok b' ->
  advancing b'.
Proof.
  intros Hlt Hb. unfold end_body.
  destruct (getitem relevance_values (end_ - 1)) as [last|]; simpl;
    [|discriminate].
  destruct (last <? 0)%float; [intros [= <-]; exact Hb|].
  destruct (overlap_test start end_ best_segments) as [[|]|]; simpl;
    [intros [= <-]; exact Hb| |discriminate].
  destruct (total_length + end_ - start >? overall_max_length);
    [intros [= <-]; exact Hb|].
  destruct (snd b <? _)%float; intros [= <-]; [exact Hlt|exact Hb].
Qed.

Lemma start_body_advancing b start b' :
  advancing b ->
  start_body overlap_test relevance_values max_length overall_max_length
             best_segments total_length b start = Ok b' ->
  advancing b'.
Proof.
  intros Hb. unfold start_body.
  destruct (getitem relevance_values start) as [first|]; simpl;
    [|discriminate].
  destruct (first <? 0)%float; [intros [= <-]; exact Hb|].
  apply for_each_inv; [|exact Hb].
  intros s end_ s' Hend. apply in_range in Hend.
  apply end_body_advancing. lia.
Qed.

(** A selected window has at least one chunk. *)
Lemma find_best_progress seg v :
  find best_segments total_length = Ok (Some seg, v) -> fst seg < snd seg.
Proof.
  unfold find, find_best. intros Hrun.
  change (advancing (Some seg, v)).
  refine (for_each_inv advancing _ _ _ (None, (-1000)%float) (Some seg, v)
            I Hrun).
  intros s x s' _. apply start_body_advancing.
Qed.

(** With [max_length <= 0] the range of [end] is empty for every
    [start]. *)
Lemma start_body_no_window b start :
  max_length <= 0 -> 0 <= start < len relevance_values ->
  start_body overlap_test relevance_values max_length overall_max_length
             best_segments total_length b start = Ok b.
Proof.
  intros Hml Hs. unfold start_body.
  destruct (getitem_ok relevance_values start Hs) as (v & -> & _). simpl.
  destruct (v <? 0)%float; [reflexivity|].
  rewrite range_empty by lia. reflexivity.
Qed.

Lemma find_best_no_window :
  max_length <= 0 ->
  find best_segments total_length = Ok (None, (-1000)%float).
Proof.
  intros Hml. unfold find, find_best. apply for_each_skip.
  intros start Hs. apply in_range in Hs.
  apply start_body_no_window; assumption.
Qed.

(** A pass over chunks that all have a negative value examines no
    window. *)
Lemma find_best_all_negative :
  Forall (fun v => (v <? 0)%float = true) relevance_values ->
  find best_segments total_length = Ok (None, (-1000)%float).
Proof.
  intros Hneg. unfold find, find_best. apply for_each_skip.
  intros start Hs. apply in_range in Hs.
  destruct (getitem_ok relevance_values start Hs) as (v & Hget & Hin).
  unfold start_body. rewrite Hget. simpl.
  rewrite Forall_forall in Hneg. rewrite (Hneg v Hin). reflexivity.
Qed.

End Pass.

(** *** The [while] loop *)

Lemma while_loop_S (fuel : nat) best_segments scores total_length :
  loop (S fuel) best_segments scores total_length =
  step best_segments scores total_length (loop fuel).
Proof. reflexivity. Qed.

Lemma while_step_ext best_segments scores total_length k1 k2 :
  (forall seg v,
      find best_segments total_length = Ok (Some seg, v) ->
      k1 (best_segments ++ [seg]) (scores ++ [v])
         (total_length + (snd seg - fst seg)) =
      k2 (best_segments ++ [seg]) (scores ++ [v])
         (total_length + (snd seg - fst seg))) ->
  step best_segments scores total_length k1 =
  step best_segments scores total_length k2.
Proof.
  intros Hk. unfold step, while_step. fold find.
  destruct (total_length <? overall_max_length); [|reflexivity].
  destruct (find best_segments total_length) as [[[seg|] v]|e] eqn:Hfind;
    simpl; try reflexivity.
  destruct (v <? minimum_value)%float; [reflexivity|].
  apply Hk. reflexivity.
Qed.

(** The [while] loop never runs out of fuel: any two amounts that cover
    the remaining budget give the same run. *)
Lemma while_loop_fuel (f1 f2 : nat) :
  forall best_segments scores total_length,
    overall_max_length - total_length <= Z.of_nat f1 ->
    overall_max_length - total_length <= Z.of_nat f2 ->
    loop f1 best_segments scores total_length =
    loop f2 best_segments scores total_length.
Proof.
  revert f2. induction f1 as [|f1 IH]; intros [|f2] bs sc total H1 H2;
    try reflexivity; rewrite ?while_loop_S.
  - unfold step, while_step.
    destruct (Z.ltb_spec total overall_max_length); [lia|reflexivity].
  - unfold step, while_step.
    destruct (Z.ltb_spec total overall_max_length); [lia|reflexivity].
  - apply while_step_ext. intros seg v Hfind.
    apply find_best_progress in Hfind. apply IH; lia.
Qed.

(** The loop equation: with the fuel that [get_best_segments] provides,
    the run is the source's [while] statement followed by itself. *)
Lemma while_loop_unfold (best_segments : list segment)
  (scores : list float) (total_length : Z) :
  let run bs sc tl :=
    loop (Z.to_nat (overall_max_length - tl)) bs sc tl in
  run best_segments scores total_length =
  step best_segments scores total_length run.
Proof.
  intros run. unfold run.
  destruct (Z.to_nat (overall_max_length - total_length)) as [|f] eqn:Hf.
  - unfold step, while_step.
    destruct (Z.ltb_spec total_length overall_max_length); [lia|reflexivity].
  - rewrite while_loop_S. apply while_step_ext. intros seg v Hfind.
    apply find_best_progress in Hfind. apply while_loop_fuel; lia.
Qed.

(** A first pass that finds nothing ends the loop with both lists
    empty. *)
Lemma while_loop_nothing_found (fuel : nat) :
  find [] 0 = Ok (None, (-1000)%float) ->
  loop fuel [] [] 0 = Ok ([], []).
Proof.
  intros Hfind. destruct fuel as [|fuel]; [reflexivity|].
  rewrite while_loop_S. unfold step, while_step. fold find.
  destruct (0 <? overall_max_length); [|reflexivity].
  rewrite Hfind. reflexivity.
Qed.

(** An exception raised in the first pass leaves the loop. *)
Lemma while_loop_first_pass_raises (e : exn) :
  0 < overall_max_length ->
  find [] 0 = Raise e ->
  loop (Z.to_nat overall_max_length) [] [] 0 = Raise e.
Proof.
  intros Hpos Hfind.
  destruct (Z.to_nat overall_max_length) as [|fuel] eqn:Hfuel; [lia|].
  rewrite while_loop_S. unfold step, while_step. fold find.
  destruct (Z.ltb_spec 0 overall_max_length); [|lia].
  rewrite Hfind. reflexivity.
Qed.

(** With [overall_max_length <= 0] the loop condition fails at once. *)
Lemma while_loop_no_budget (fuel : nat) :
  overall_max_length <= 0 -> loop fuel [] [] 0 = Ok ([], []).
Proof.
  intros Hle. destruct fuel as [|fuel]; [reflexivity|].
  rewrite while_loop_S. unfold step, while_step.
  destruct (Z.ltb_spec 0 overall_max_length); [lia|reflexivity].
Qed.

End SearchFacts.

(** ** The source's overlap test raises whenever it is evaluated *)

Lemma any_overlap_raises (g : globals) (start end_ : Z)
  (best_segments : list segment) :
  raises (any_overlap g start end_ best_segments).
Proof.
  unfold any_overlap, load_global, raises.
  destruct (g "seg_end"%string) as [seg_end|]; simpl; [|eauto].
  destruct (start <? seg_end); simpl; [|eauto].
  destruct (g "seg_start"%string) as [seg_start|]; simpl; eauto.
Qed.

Lemma any_overlap_notebook (start end_ : Z) (best_segments : list segment) :
  any_overlap notebook_globals start end_ best_segments =
  Raise (NameError "seg_end").
Proof. reflexivity. Qed.

Section SourceRun.

Variable relevance_values : list float.
Variables max_length overall_max_length : Z.
Variable minimum_value : float.

Let test := any_overlap notebook_globals.

(** A starting point whose value is not negative makes the pass raise at
    its first window, the one-chunk window [(start, start + 1)]. *)
Lemma start_body_raises best_segments total_length b start v :
  0 < max_length ->
  0 <= start < len relevance_values ->
  getitem relevance_values start = Ok v ->
  (v <? 0)%float = false ->
  start_body test relevance_values max_length overall_max_length
             best_segments total_length b start =
  Raise (NameError "seg_end").
Proof.
  intros Hml Hs Hget Hv. unfold start_body. rewrite Hget. simpl.
  rewrite Hv. rewrite range_cons by lia. simpl.
  unfold end_body. replace (start + 1 - 1) with start by lia.
  rewrite Hget. simpl. rewrite Hv. reflexivity.
Qed.

Lemma start_body_skips best_segments total_length b start v :
  getitem relevance_values start = Ok v ->
  (v <? 0)%float = true ->
  start_body test relevance_values max_length overall_max_length
             best_segments total_length b start = Ok b.
Proof.
  intros Hget Hv. unfold start_body. rewrite Hget. simpl.
  rewrite Hv. reflexivity.
Qed.

Lemma find_best_raises best_segments total_length :
  0 < max_length ->
  (exists v, In v relevance_values /\ (v <? 0)%float = false) ->
  find_best test relevance_values max_length overall_max_length
            best_segments total_length = Raise (NameError "seg_end").
Proof.
  intros Hml (v & Hin & Hv). unfold find_best.
  apply for_each_skip_or_raise.
  - intros start Hs. apply in_range in Hs.
    destruct (getitem_ok relevance_values start Hs) as (w & Hget & _).
    destruct (w <? 0)%float eqn:Hw.
    + left. eapply start_body_skips; eassumption.
    + right. eapply start_body_raises; eassumption.
  - apply In_nth_error in Hin. destruct Hin as (n & Hn).
    assert (Hlen : (n < List.length relevance_values)%nat)
      by (apply nth_error_Some; congruence).
    exists (Z.of_nat n). split.
    + apply in_range. unfold len. lia.
    + eapply start_body_raises; try eassumption.
      * unfold len. lia.
      * apply getitem_nth. assumption.
Qed.

(** The call raises as soon as one chunk has a value that is not
    negative, for positive [max_length] and [overall_max_length]. *)
Lemma get_best_segments_raises :
  0 < max_length -> 0 < overall_max_length ->
  (exists v, In v relevance_values /\ (v <? 0)%float = false) ->
  get_best_segments relevance_values max_length overall_max_length
                    minimum_value = Raise (NameError "seg_end").
Proof.
  intros Hml Homl Hv. unfold get_best_segments, get_best_segments_with.
  fold test.
  rewrite (while_loop_first_pass_raises test relevance_values max_length
             overall_max_length minimum_value (NameError "seg_end"));
    [reflexivity|assumption|].
  apply find_best_raises; assumption.
Qed.

(** Otherwise no window reaches the overlap test: the loop is left with
    nothing selected, and the function, having no [return] statement,
    returns [None]. *)
Lemma get_best_segments_returns_none :
  max_length <= 0 \/ overall_max_length <= 0 \/
  Forall (fun v => (v <? 0)%float = true) relevance_values ->
  get_best_segments relevance_values max_length overall_max_length
                    minimum_value = Ok None.
Proof.
  intros Hcase. unfold get_best_segments, get_best_segments_with.
  assert (Hloop : while_loop test relevance_values max_length
                    overall_max_length minimum_value
                    (Z.to_nat overall_max_length) [] [] 0 = Ok ([], [])).
  { destruct Hcase as [Hml|[Homl|Hneg]].
    - apply while_loop_nothing_found. apply find_best_no_window.
      exact Hml.
    - apply while_loop_no_budget. exact Homl.
    - apply while_loop_nothing_found. apply find_best_all_negative.
      exact Hneg. }
  fold test. rewrite Hloop. reflexivity.
Qed.

End SourceRun.

(** ** What a call of [get_best_segments] does *)


(** C2. A call on well-formed numeric input raises: with one chunk of
    value [0.5], the first window reaches the overlap test, which reads
    the unbound name [seg_end]. *)
Theorem overlap_test_raises_on_one_chunk :
  get_best_segments [0.5%float] 1 1 0%float = Raise (NameError "seg_end").
Proof. reflexivity. Qed.

(** C3. On the single-spike input the call raises at the window [(2, 3)]
    instead of returning the segment [(2, 4)]. *)
Theorem single_spike_raises :
  get_best_segments
    [(-0.2)%float; (-0.2)%float; 0.4%float; 0.8%float; (-0.2)%float]
    5 5 0.5%float = Raise (NameError "seg_end").
Proof. reflexivity. Qed.




(** C7, as stated, fails: with [max_length = 0] the call signals
    nothing; it raises no exception and returns [None]. *)
Lemma malformed_parameters_not_signalled :
  get_best_segments [0.5%float] 0 5 0.5%float = Ok None /\
  ~ raises (get_best_segments [0.5%float] 0 5 0.5%float).
Proof.
  split; [reflexivity|]. intros (e & He). discriminate He.
Qed.

(** C7, amended. Called with [max_length <= 0] or
    [overall_max_length <= 0], [get_best_segments] validates nothing and
    signals nothing: the call raises no exception. *)
Theorem get_best_segments_malformed (relevance_values : list float)
  (max_length overall_max_length : Z) (minimum_value : float) :
  max_length <= 0 \/ overall_max_length <= 0 ->
  ~ raises (get_best_segments relevance_values max_length
                              overall_max_length minimum_value).
Proof.
  intros Hbad (e & He).
  rewrite get_best_segments_returns_none in He by tauto.
  discriminate He.
Qed.

Lemma get_best_segments_malformed_witness :
  ~ raises (get_best_segments [0.5%float; (-0.2)%float] 0 5 0.5%float).
Proof.
  apply (get_best_segments_malformed [0.5%float; (-0.2)%float] 0 5
           0.5%float).
  left. lia.
Defined.


(** X1. The outcome of every call of [get_best_segments]: it raises
    [NameError] for the name [seg_end] when [max_length] and
    [overall_max_length] are positive and some chunk has a value that is
    not negative, and returns [None] otherwise.  It never returns a
    segment. *)
Theorem get_best_segments_outcome (relevance_values : list float)
  (max_length overall_max_length : Z) (minimum_value : float) :
  get_best_segments relevance_values max_length overall_max_length
                    minimum_value =
  if (0 <? max_length) && (0 <? overall_max_length) &&
     existsb (fun v => negb (v <? 0)%float) relevance_values
  then Raise (NameError "seg_end")
  else Ok None.
Proof.
  destruct (Z.ltb_spec 0 max_length) as [Hml|Hml];
    [|apply get_best_segments_returns_none; left; lia].
  destruct (Z.ltb_spec 0 overall_max_length) as [Homl|Homl];
    [|apply get_best_segments_returns_none; right; left; lia].
  cbn [andb].
  destruct (existsb (fun v => negb (v <? 0)%float) relevance_values)
    eqn:Hsome.
  - apply existsb_exists in Hsome. destruct Hsome as (v & Hin & Hv).
    apply get_best_segments_raises; try assumption.
    exists v. split; [exact Hin|].
    destruct (v <? 0)%float; [discriminate|reflexivity].
  - apply get_best_segments_returns_none. right. right.
    apply Forall_forall. intros v Hin.
    destruct (v <? 0)%float eqn:Hv; [reflexivity|]. exfalso.
    assert (Hex : existsb (fun v => negb (v <? 0)%float) relevance_values
                  = true).
    { apply existsb_exists. exists v. rewrite Hv. split; [exact Hin|].
      reflexivity. }
    congruence.
Qed.

(** ** The chunk value of [rerank_chunks] *)

Section ChunkValueFacts.

Local Open Scope R_scope.

Variable betainc : R -> R.

Let transform_ := transform betainc.
Let chunk_value_ := chunk_value betainc.

Lemma transform_0 : transform_ 0 = 0.
Proof.
  unfold transform_, transform. destruct (Rle_dec 0 0); [reflexivity|lra].
Qed.

Lemma transform_1 : transform_ 1 = 1.
Proof.
  unfold transform_, transform. destruct (Rle_dec 1 0); [lra|].
  destruct (Rle_dec 1 1); [reflexivity|lra].
Qed.

Lemma decay_decreasing (i j : nat) :
  (i < j)%nat -> exp (- INR j / decay_rate) < exp (- INR i / decay_rate).
Proof.
  intros Hij. apply exp_increasing. apply lt_INR in Hij.
  unfold decay_rate. lra.
Qed.

Lemma decay_le_1 (i : nat) : exp (- INR i / decay_rate) <= 1.
Proof.
  rewrite <- exp_0. destruct i as [|i].
  - right. f_equal. unfold decay_rate. simpl. lra.
  - left. apply exp_increasing.
    pose proof (pos_INR i) as Hi. rewrite S_INR. unfold decay_rate. lra.
Qed.

Lemma chunk_value_at_zero (i : nat) : chunk_value_ i 0 = 0.
Proof.
  unfold chunk_value_, chunk_value. fold transform_.
  rewrite transform_0. ring.
Qed.

Lemma chunk_value_best : chunk_value_ 0 1 = 1.
Proof.
  unfold chunk_value_, chunk_value. fold transform_.
  rewrite transform_1. simpl.
  replace (- 0 / decay_rate) with 0 by (unfold decay_rate; lra).
  rewrite exp_0. ring.
Qed.

Hypothesis betainc_range : forall x, 0 < x < 1 -> 0 < betainc x <= 1.

Lemma transform_range (raw : R) : 0 <= transform_ raw <= 1.
Proof.
  unfold transform_, transform. destruct (Rle_dec raw 0); [lra|].
  destruct (Rle_dec 1 raw); [lra|].
  assert (H : 0 < betainc raw <= 1) by (apply betainc_range; lra). lra.
Qed.

Lemma chunk_value_le_best (raw : R) (i : nat) :
  chunk_value_ i raw <= chunk_value_ 0 1.
Proof.
  rewrite chunk_value_best. unfold chunk_value_, chunk_value.
  fold transform_.
  pose proof (transform_range raw) as Ht.
  pose proof (decay_le_1 i) as Hd.
  pose proof (exp_pos (- INR i / decay_rate)) as Hp.
  nra.
Qed.

Lemma chunk_value_non_increasing (raw : R) (i j : nat) :
  (i <= j)%nat -> chunk_value_ j raw <= chunk_value_ i raw.
Proof.
  intros Hij. unfold chunk_value_, chunk_value. fold transform_.
  pose proof (transform_range raw) as Ht.
  apply Rmult_le_compat_r; [lra|].
  destruct (Nat.eq_dec i j) as [->|Hne]; [lra|].
  left. apply decay_decreasing. lia.
Qed.

End ChunkValueFacts.




(** ** Chunking *)

(** The name that [split_into_chunks] calls is bound to nothing: every
    call raises [NameError] before a splitter is made. *)
Lemma split_into_chunks_name_error (text : string) (chunk_size : Z) :
  split_into_chunks text chunk_size =
  Raise (NameError "RecursiveCharacterTextSpliter").
Proof. reflexivity. Qed.


(** ** Reranking *)

Section RerankFacts.

Local Open Scope R_scope.

Variable betainc : R -> R.
Variable scores : list R.
Variable n : nat.

Let body := rerank_body betainc scores.

(** The value written for the chunk at rank [i] with raw score
    [score]. *)
Let decayed (i : Z) (score : R) : R :=
  exp (- IZR i / decay_rate) * transform betainc score.

Let within (idx : Z) : Prop := (- Z.of_nat n <= idx < Z.of_nat n)%Z.

Lemma rerank_body_in_range sim cv i idx score :
  List.length sim = n -> List.length cv = n ->
  getitem scores i = Ok score -> within idx ->
  body (sim, cv) (i, idx) =
  Ok (upd sim (position (Z.of_nat n) idx) (transform betainc score),
      upd cv (position (Z.of_nat n) idx) (decayed i score)) /\
  (position (Z.of_nat n) idx < n)%nat.
Proof.
  intros Hsim Hcv Hscore Hidx. unfold body, rerank_body.
  rewrite Hscore. simpl.
  assert (Hs : (- len sim <= idx < len sim)%Z)
    by (unfold len; rewrite Hsim; exact Hidx).
  assert (Hc : (- len cv <= idx < len cv)%Z)
    by (unfold len; rewrite Hcv; exact Hidx).
  destruct (setitem_in_range sim idx (transform betainc score) Hs)
    as (-> & Hp).
  simpl.
  destruct (setitem_in_range cv idx
              (exp (- IZR i / decay_rate) * transform betainc score) Hc)
    as (-> & _).
  simpl. unfold len in *. rewrite Hsim, Hcv in *. split; [reflexivity|].
  exact Hp.
Qed.

Lemma rerank_body_out_of_range sim cv i idx score :
  List.length sim = n ->
  getitem scores i = Ok score -> ~ within idx ->
  body (sim, cv) (i, idx) = Raise IndexError.
Proof.
  intros Hsim Hscore Hidx. unfold body, rerank_body.
  rewrite Hscore. simpl.
  rewrite setitem_out_of_range; [reflexivity|].
  unfold len. rewrite Hsim. exact Hidx.
Qed.

(** The loop completes when every index is in range, and raises
    [IndexError] otherwise. *)
Lemma rerank_loop_outcome (rs : list Cohere.RerankResult) :
  forall (lo : Z) (sim cv : list R),
    List.length sim = n -> List.length cv = n ->
    (forall j r, nth_error rs j = Some r ->
       getitem scores (lo + Z.of_nat j) = Ok (Cohere.relevance_score r)) ->
    (Forall (fun r => within (Cohere.index r)) rs ->
     exists sim' cv',
       for_each (items lo (map Cohere.index rs)) body (sim, cv) = Ok (sim', cv') /\
       List.length sim' = n /\ List.length cv' = n) /\
    (~ Forall (fun r => within (Cohere.index r)) rs ->
     for_each (items lo (map Cohere.index rs)) body (sim, cv) = Raise IndexError).
Proof.
  induction rs as [|r rs IH]; intros lo sim cv Hsim Hcv Hscores.
  - simpl map. rewrite items_nil. split.
    + intros _. exists sim, cv. repeat split; assumption.
    + intros H. exfalso. apply H. constructor.
  - simpl map. rewrite items_cons, for_each_cons.
    assert (Hr : getitem scores lo = Ok (Cohere.relevance_score r)).
    { specialize (Hscores O r eq_refl). simpl in Hscores.
      rewrite Z.add_0_r in Hscores. exact Hscores. }
    assert (Htail : forall j r0, nth_error rs j = Some r0 ->
              getitem scores (lo + 1 + Z.of_nat j) = Ok (Cohere.relevance_score r0)).
    { intros j r0 Hj. specialize (Hscores (S j) r0 Hj).
      rewrite Nat2Z.inj_succ in Hscores.
      replace (lo + 1 + Z.of_nat j)%Z with (lo + Z.succ (Z.of_nat j))%Z
        by lia. exact Hscores. }
    assert (Hdec : within (Cohere.index r) \/ ~ within (Cohere.index r))
      by (unfold within; lia).
    destruct Hdec as [Hin|Hout].
    + destruct (rerank_body_in_range sim cv lo (Cohere.index r) _ Hsim Hcv Hr Hin)
        as (-> & _).
      simpl.
      destruct (IH (lo + 1)%Z
                   (upd sim (position (Z.of_nat n) (Cohere.index r))
                        (transform betainc (Cohere.relevance_score r)))
                   (upd cv (position (Z.of_nat n) (Cohere.index r))
                        (decayed lo (Cohere.relevance_score r))))
        as (Hok & Hbad);
        [rewrite length_upd; exact Hsim|rewrite length_upd; exact Hcv
        |exact Htail|].
      split.
      * intros Hall. apply Hok. apply Forall_cons_iff in Hall. tauto.
      * intros Hnot. apply Hbad. intros Hall. apply Hnot.
        constructor; assumption.
    + rewrite (rerank_body_out_of_range sim cv lo (Cohere.index r) _ Hsim Hr Hout).
      simpl. split; [|reflexivity].
      intros Hall. apply Forall_cons_iff in Hall. tauto.
Qed.

(** With distinct indices in [0, n), the loop writes the values of the
    chunk of each rank at the chunk's index and leaves the other
    positions as they are. *)
Lemma rerank_loop_values (rs : list Cohere.RerankResult) :
  forall (lo : Z) (sim cv sim' cv' : list R),
    List.length sim = n -> List.length cv = n ->
    (forall j r, nth_error rs j = Some r ->
       getitem scores (lo + Z.of_nat j) = Ok (Cohere.relevance_score r)) ->
    Forall (fun r => (0 <= Cohere.index r < Z.of_nat n)%Z) rs ->
    NoDup (map Cohere.index rs) ->
    for_each (items lo (map Cohere.index rs)) body (sim, cv) = Ok (sim', cv') ->
    (forall j r, nth_error rs j = Some r ->
       nth_error sim' (Z.to_nat (Cohere.index r)) =
         Some (transform betainc (Cohere.relevance_score r)) /\
       nth_error cv' (Z.to_nat (Cohere.index r)) =
         Some (decayed (lo + Z.of_nat j) (Cohere.relevance_score r))) /\
    (forall k, ~ In (Z.of_nat k) (map Cohere.index rs) ->
       nth_error sim' k = nth_error sim k /\
       nth_error cv' k = nth_error cv k).
Proof.
  induction rs as [|r rs IH];
    intros lo sim cv sim' cv' Hsim Hcv Hscores Hrange Hnodup.
  - simpl map. rewrite items_nil. simpl. intros [= <- <-]. split.
    + intros j r Hj. destruct j; discriminate.
    + intros k _. split; reflexivity.
  - simpl map. rewrite items_cons, for_each_cons.
    apply Forall_cons_iff in Hrange. destruct Hrange as (Hr0 & Hrange').
    simpl in Hnodup. apply NoDup_cons_iff in Hnodup.
    destruct Hnodup as (Hfresh & Hnodup').
    assert (Hr : getitem scores lo = Ok (Cohere.relevance_score r)).
    { specialize (Hscores O r eq_refl). simpl in Hscores.
      rewrite Z.add_0_r in Hscores. exact Hscores. }
    assert (Htail : forall j r0, nth_error rs j = Some r0 ->
              getitem scores (lo + 1 + Z.of_nat j) = Ok (Cohere.relevance_score r0)).
    { intros j r0 Hj. specialize (Hscores (S j) r0 Hj).
      rewrite Nat2Z.inj_succ in Hscores.
      replace (lo + 1 + Z.of_nat j)%Z with (lo + Z.succ (Z.of_nat j))%Z
        by lia. exact Hscores. }
    assert (Hin : within (Cohere.index r)) by (unfold within; lia).
    destruct (rerank_body_in_range sim cv lo (Cohere.index r) _ Hsim Hcv Hr Hin)
      as (-> & Hp).
    simpl. intros Hrun.
    assert (Hpos : position (Z.of_nat n) (Cohere.index r) = Z.to_nat (Cohere.index r)).
    { unfold position. destruct (Z.ltb_spec (Cohere.index r) 0); [lia|reflexivity]. }
    rewrite Hpos in *.
    destruct (IH (lo + 1)%Z
                 (upd sim (Z.to_nat (Cohere.index r))
                      (transform betainc (Cohere.relevance_score r)))
                 (upd cv (Z.to_nat (Cohere.index r))
                      (decayed lo (Cohere.relevance_score r)))
                 sim' cv')
      as (Hwritten & Hkept);
      [rewrite length_upd; exact Hsim|rewrite length_upd; exact Hcv
      |exact Htail|exact Hrange'|exact Hnodup'|exact Hrun|].
    split.
    + intros [|j] r0 Hj; simpl in Hj.
      * injection Hj as <-.
        destruct (Hkept (Z.to_nat (Cohere.index r))) as (Hs & Hc).
        { rewrite Z2Nat.id by lia. exact Hfresh. }
        rewrite Hs, Hc, Z.add_0_r.
        rewrite !nth_error_upd_eq by (rewrite ?Hsim, ?Hcv; exact Hp).
        split; reflexivity.
      * destruct (Hwritten j r0 Hj) as (Hs & Hc). split; [exact Hs|].
        rewrite Hc. do 2 f_equal. rewrite Nat2Z.inj_succ. lia.
    + intros k Hk. destruct (Hkept k) as (Hs & Hc).
      { intros Hin'. apply Hk. right. exact Hin'. }
      rewrite Hs, Hc.
      assert (Hne : k <> Z.to_nat (Cohere.index r)).
      { intros ->. apply Hk. left. rewrite Z2Nat.id by lia. reflexivity. }
      rewrite !nth_error_upd_neq by exact Hne. split; reflexivity.
Qed.

End RerankFacts.

Section RerankBounds.

Local Open Scope R_scope.

Variable betainc : R -> R.
Variable scores : list R.

Hypothesis betainc_range : forall x, 0 < x < 1 -> 0 < betainc x <= 1.

Lemma decayed_pair_written (i : Z) (score : R) :
  (0 <= i)%Z ->
  decayed_pair (transform betainc score)
               (exp (- IZR i / decay_rate) * transform betainc score).
Proof.
  intros Hi. unfold decayed_pair.
  pose proof (transform_range betainc betainc_range score) as Ht.
  pose proof (exp_pos (- IZR i / decay_rate)) as Hp.
  assert (Hd : exp (- IZR i / decay_rate) <= 1).
  { rewrite <- exp_0. destruct (Z.eq_dec i 0) as [->|Hne].
    - right. f_equal. unfold decay_rate. lra.
    - left. apply exp_increasing. apply IZR_le in Hi.
      assert (IZR i <> 0) by (intros H0; apply eq_IZR in H0; lia).
      unfold decay_rate. lra. }
  nra.
Qed.

Lemma rerank_body_pairs sim cv i idx sim' cv' :
  (0 <= i)%Z ->
  Forall2 decayed_pair sim cv ->
  rerank_body betainc scores (sim, cv) (i, idx) = Ok (sim', cv') ->
  Forall2 decayed_pair sim' cv' /\
  List.length sim' = List.length sim.
Proof.
  intros Hi Hpairs. unfold rerank_body.
  destruct (getitem scores i) as [score|] eqn:Hscore; simpl; [|discriminate].
  assert (Hlen : List.length sim = List.length cv)
    by (eapply Forall2_length; exact Hpairs).
  assert (Hdec : (- len sim <= idx < len sim)%Z \/
                 ~ (- len sim <= idx < len sim)%Z) by lia.
  destruct Hdec as [Hin|Hout].
  - assert (Hin' : (- len cv <= idx < len cv)%Z)
      by (unfold len in *; rewrite <- Hlen; exact Hin).
    destruct (setitem_in_range sim idx (transform betainc score) Hin)
      as (-> & _).
    simpl.
    destruct (setitem_in_range cv idx
                (exp (- IZR i / decay_rate) * transform betainc score) Hin')
      as (-> & _).
    simpl. intros [= <- <-]. split; [|apply length_upd].
    unfold len. rewrite <- Hlen. apply Forall2_upd; [exact Hpairs|].
    apply decayed_pair_written. exact Hi.
  - rewrite setitem_out_of_range by exact Hout. discriminate.
Qed.

Lemma rerank_loop_pairs (idxs : list Z) (lo : Z) sim cv sim' cv' :
  (0 <= lo)%Z ->
  Forall2 decayed_pair sim cv ->
  for_each (items lo idxs) (rerank_body betainc scores) (sim, cv) =
    Ok (sim', cv') ->
  Forall2 decayed_pair sim' cv' /\ List.length sim' = List.length sim.
Proof.
  intros Hlo Hpairs Hrun.
  refine (for_each_inv
            (fun st : list R * list R =>
               Forall2 decayed_pair (fst st) (snd st) /\
               List.length (fst st) = List.length sim)
            _ _ _ (sim, cv) (sim', cv') _ Hrun).
  - intros [s c] [i idx] [s' c'] Hin (Hp & Hl) Hbody. simpl in *.
    assert (Hi : (0 <= i)%Z).
    { unfold items in Hin. apply in_combine_l in Hin.
      apply in_range in Hin. lia. }
    destruct (rerank_body_pairs s c i idx s' c' Hi Hp Hbody) as (Hp' & Hl').
    split; [exact Hp'|congruence].
  - split; [exact Hpairs|reflexivity].
Qed.

End RerankBounds.

Lemma getitem_map_nth {A B : Type} (f : A -> B) (xs : list A) (j : nat)
  (x : A) :
  nth_error xs j = Some x -> getitem (map f xs) (0 + Z.of_nat j) = Ok (f x).
Proof.
  intros Hj. rewrite Z.add_0_l. apply getitem_nth.
  rewrite nth_error_map, Hj. reflexivity.
Qed.

Lemma Forall2_repeat {A B : Type} (P : A -> B -> Prop) (a : A) (b : B)
  (n : nat) : P a b -> Forall2 P (repeat a n) (repeat b n).
Proof. intros H. induction n; simpl; constructor; assumption. Qed.

Lemma nth_error_repeat_lt {A : Type} (a : A) (n k : nat) :
  (k < n)%nat -> nth_error (repeat a n) k = Some a.
Proof.
  revert k. induction n as [|n IH]; intros [|k] Hk; simpl; try lia;
    [reflexivity|]. apply IH. lia.
Qed.

Section RerankChunksFacts.

Variable betainc : R -> R.
Variable client_rerank :
  string -> string -> list string -> list Cohere.RerankResult.
Variable query : string.
Variable chunks : list string.

Let results := client_rerank "rerank-english-v3.0"%string query chunks.
Let run := rerank_chunks betainc client_rerank query chunks.

Lemma rerank_chunks_outcome :
  (Forall (fun r => - len chunks <= Cohere.index r < len chunks) results ->
   exists sim cv,
     run = Ok (sim, cv) /\
     List.length sim = List.length chunks /\
     List.length cv = List.length chunks) /\
  (~ Forall (fun r => - len chunks <= Cohere.index r < len chunks) results ->
   run = Raise IndexError).
Proof.
  unfold run, rerank_chunks. fold results. rewrite enumerate_items.
  apply (rerank_loop_outcome betainc (map Cohere.relevance_score results)
           (List.length chunks) results 0
           (repeat 0%R (List.length chunks))
           (repeat 0%R (List.length chunks)));
    [apply repeat_length|apply repeat_length|].
  intros j r. apply getitem_map_nth.
Qed.

Lemma rerank_chunks_written sim cv :
  Forall (fun r => 0 <= Cohere.index r < len chunks) results ->
  NoDup (map Cohere.index results) ->
  run = Ok (sim, cv) ->
  (forall i r, nth_error results i = Some r ->
     nth_error sim (Z.to_nat (Cohere.index r)) =
       Some (transform betainc (Cohere.relevance_score r)) /\
     nth_error cv (Z.to_nat (Cohere.index r)) =
       Some (chunk_value betainc i (Cohere.relevance_score r))) /\
  (forall k, (k < List.length chunks)%nat ->
     ~ In (Z.of_nat k) (map Cohere.index results) ->
     nth_error sim k = Some 0%R /\ nth_error cv k = Some 0%R).
Proof.
  intros Hrange Hnodup. unfold run, rerank_chunks. fold results.
  rewrite enumerate_items. intros Hrun.
  destruct (rerank_loop_values betainc (map Cohere.relevance_score results)
              (List.length chunks) results 0
              (repeat 0%R (List.length chunks))
              (repeat 0%R (List.length chunks)) sim cv)
    as (Hwritten & Hkept);
    [apply repeat_length|apply repeat_length
    |intros j r; apply getitem_map_nth|exact Hrange|exact Hnodup
    |exact Hrun|].
  split.
  - intros i r Hi. destruct (Hwritten i r Hi) as (Hs & Hc).
    split; [exact Hs|]. rewrite Hc. unfold chunk_value.
    rewrite Z.add_0_l, <- INR_IZR_INZ. reflexivity.
  - intros k Hk Hnot. destruct (Hkept k Hnot) as (-> & ->).
    rewrite !nth_error_repeat_lt by exact Hk. split; reflexivity.
Qed.

Lemma rerank_chunks_pairs sim cv :
  (forall x, 0 < x < 1 -> 0 < betainc x <= 1)%R ->
  run = Ok (sim, cv) ->
  Forall2 decayed_pair sim cv /\
  List.length sim = List.length chunks.
Proof.
  intros Hb. unfold run, rerank_chunks. fold results.
  rewrite enumerate_items. intros Hrun.
  destruct (rerank_loop_pairs betainc (map Cohere.relevance_score results) Hb
              (map Cohere.index results) 0 _ _ sim cv (Z.le_refl 0)
              (Forall2_repeat decayed_pair 0%R 0%R (List.length chunks)
                 (conj (conj (Rle_refl 0) (Rle_refl 0)) Rle_0_1))
              Hrun) as (Hp & Hl).
  split; [exact Hp|]. rewrite Hl. apply repeat_length.
Qed.

End RerankChunksFacts.

(** The run of [rerank_chunks] on the answer [two_results] for two
    chunks. *)
Lemma rerank_chunks_two_results :
  rerank_chunks (fun x => x) two_results "q" ["a"; "b"]%string =
  Ok ([transform (fun x => x) 0; transform (fun x => x) 1],
      [(exp (- IZR 1 / decay_rate) * transform (fun x => x) 0)%R;
       (exp (- IZR 0 / decay_rate) * transform (fun x => x) 1)%R]).
Proof. reflexivity. Qed.

(** X6. Given the reranker's answer, [rerank_chunks] returns two lists
    with one entry for each chunk when every index of the answer lies in
    [[-len(chunks), len(chunks))], and raises [IndexError] otherwise. *)
Theorem rerank_chunks_index_error (betainc : R -> R)
  (client_rerank : string -> string -> list string ->
                   list Cohere.RerankResult)
  (query : string) (chunks : list string) :
  if forallb (fun r => (- len chunks <=? Cohere.index r) &&
                       (Cohere.index r <? len chunks))
             (client_rerank "rerank-english-v3.0"%string query chunks)
  then exists similarity_scores chunk_values,
         rerank_chunks betainc client_rerank query chunks =
           Ok (similarity_scores, chunk_values) /\
         List.length similarity_scores = List.length chunks /\
         List.length chunk_values = List.length chunks
  else rerank_chunks betainc client_rerank query chunks = Raise IndexError.
Proof.
  destruct (rerank_chunks_outcome betainc client_rerank query chunks)
    as (Hok & Herr).
  destruct (forallb _ _) eqn:Hall.
  - apply Hok. apply Forall_forall. intros r Hr.
    rewrite forallb_forall in Hall. specialize (Hall r Hr).
    apply andb_prop in Hall. destruct Hall as (Hlo & Hhi).
    apply Z.leb_le in Hlo. apply Z.ltb_lt in Hhi. lia.
  - apply Herr. intros HF. rewrite Forall_forall in HF.
    assert (Htrue : forallb (fun r => (- len chunks <=? Cohere.index r) &&
                                      (Cohere.index r <? len chunks))
                      (client_rerank "rerank-english-v3.0"%string query
                                     chunks) = true).
    { apply forallb_forall. intros r Hr. specialize (HF r Hr).
      apply andb_true_intro. split; [apply Z.leb_le|apply Z.ltb_lt]; lia. }
    congruence.
Qed.

(** X7. When the reranker's answer names distinct chunks by indices in
    [[0, len(chunks))] and [rerank_chunks] returns, the chunk named at
    rank [i] with relevance score [s] has similarity score
    [transform(s)] and chunk value [exp(-i/30) * transform(s)], and a
    chunk that the answer does not name has [0] for both. *)
Theorem rerank_chunks_values (betainc : R -> R)
  (client_rerank : string -> string -> list string ->
                   list Cohere.RerankResult)
  (query : string) (chunks : list string)
  (similarity_scores chunk_values : list R) :
  Forall (fun r => 0 <= Cohere.index r < len chunks)
         (client_rerank "rerank-english-v3.0"%string query chunks) ->
  NoDup (map Cohere.index
             (client_rerank "rerank-english-v3.0"%string query chunks)) ->
  rerank_chunks betainc client_rerank query chunks =
    Ok (similarity_scores, chunk_values) ->
  (forall i r,
      nth_error (client_rerank "rerank-english-v3.0"%string query chunks) i
        = Some r ->
      nth_error similarity_scores (Z.to_nat (Cohere.index r)) =
        Some (transform betainc (Cohere.relevance_score r)) /\
      nth_error chunk_values (Z.to_nat (Cohere.index r)) =
        Some (chunk_value betainc i (Cohere.relevance_score r))) /\
  (forall k, (k < List.length chunks)%nat ->
      ~ In (Z.of_nat k)
           (map Cohere.index
                (client_rerank "rerank-english-v3.0"%string query chunks)) ->
      nth_error similarity_scores k = Some 0%R /\
      nth_error chunk_values k = Some 0%R).
Proof. apply rerank_chunks_written. Qed.

Lemma rerank_chunks_values_witness :
  (forall i r,
      nth_error (two_results "rerank-english-v3.0" "q" ["a"; "b"]%string) i
        = Some r ->
      nth_error [transform (fun x => x) 0; transform (fun x => x) 1]
                (Z.to_nat (Cohere.index r)) =
        Some (transform (fun x => x) (Cohere.relevance_score r)) /\
      nth_error [(exp (- IZR 1 / decay_rate) * transform (fun x => x) 0)%R;
                 (exp (- IZR 0 / decay_rate) * transform (fun x => x) 1)%R]
                (Z.to_nat (Cohere.index r)) =
        Some (chunk_value (fun x => x) i (Cohere.relevance_score r))) /\
  (forall k, (k < List.length ["a"; "b"]%string)%nat ->
      ~ In (Z.of_nat k)
           (map Cohere.index
                (two_results "rerank-english-v3.0" "q" ["a"; "b"]%string)) ->
      nth_error [transform (fun x => x) 0; transform (fun x => x) 1] k =
        Some 0%R /\
      nth_error [(exp (- IZR 1 / decay_rate) * transform (fun x => x) 0)%R;
                 (exp (- IZR 0 / decay_rate) * transform (fun x => x) 1)%R]
                k = Some 0%R).
Proof.
  apply (rerank_chunks_values (fun x => x) two_results "q"
           ["a"; "b"]%string).
  - repeat constructor; simpl; lia.
  - repeat constructor; simpl; intuition lia.
  - reflexivity.
Defined.

(** X8. When the incomplete beta function takes its values in [(0, 1]]
    and [rerank_chunks] returns, the two lists have one entry for each
    chunk and, chunk by chunk,
    [0 <= chunk value <= similarity score <= 1]. *)
Theorem rerank_chunks_bounds (betainc : R -> R)
  (client_rerank : string -> string -> list string ->
                   list Cohere.RerankResult)
  (query : string) (chunks : list string)
  (similarity_scores chunk_values : list R) :
  (forall x, 0 < x < 1 -> 0 < betainc x <= 1)%R ->
  rerank_chunks betainc client_rerank query chunks =
    Ok (similarity_scores, chunk_values) ->
  Forall2 decayed_pair similarity_scores chunk_values /\
  List.length similarity_scores = List.length chunks.
Proof. apply rerank_chunks_pairs. Qed.

Lemma rerank_chunks_bounds_witness :
  Forall2 decayed_pair
    [transform (fun x => x) 0; transform (fun x => x) 1]
    [(exp (- IZR 1 / decay_rate) * transform (fun x => x) 0)%R;
     (exp (- IZR 0 / decay_rate) * transform (fun x => x) 1)%R] /\
  List.length [transform (fun x => x) 0; transform (fun x => x) 1] =
  List.length ["a"; "b"]%string.
Proof.
  apply (rerank_chunks_bounds (fun x => x) two_results "q"
           ["a"; "b"]%string).
  - intros x Hx. lra.
  - reflexivity.
Defined.

(** ** Printing a segment *)

(** X9. For a segment inside the list, [print_document_segment] raises
    nothing and prints, for each index from [start_index] to
    [end_index - 1] in order, the header of the chunk and then its text:
    the texts printed are the slice [chunks[start_index:end_index]]. *)
Theorem print_document_segment_in_range (chunks : list string)
  (start_index end_index : Z) :
  0 <= start_index -> start_index <= end_index ->
  end_index <= len chunks ->
  print_document_segment chunks start_index end_index =
  (segment_printout chunks start_index end_index, None).
Proof.
  intros H0 H1 H2. unfold print_document_segment.
  rewrite (print_chunks_in_range chunks end_index
             (Z.to_nat (end_index - start_index))) by lia.
  reflexivity.
Qed.

Lemma print_document_segment_in_range_witness :
  print_document_segment ["a"; "b"; "c"]%string 1 3 =
  (segment_printout ["a"; "b"; "c"]%string 1 3, None).
Proof.
  apply (print_document_segment_in_range ["a"; "b"; "c"]%string 1 3).
  - lia.
  - lia.
  - unfold len. simpl. lia.
Defined.

(** X10. When the segment starts inside the list and runs past its last
    chunk, [print_document_segment] prints the chunks up to the last
    one, then the header of the first missing chunk, and raises
    [IndexError]. *)
Theorem print_document_segment_past_end (chunks : list string)
  (start_index end_index : Z) :
  0 <= start_index -> start_index <= len chunks ->
  len chunks < end_index ->
  print_document_segment chunks start_index end_index =
  (segment_printout chunks start_index (len chunks) ++
   [chunk_header (len chunks)], Some IndexError).
Proof.
  intros H0 H1 H2. unfold print_document_segment.
  rewrite (range_split start_index (len chunks) end_index) by lia.
  rewrite print_chunks_app.
  rewrite (print_chunks_in_range chunks (len chunks)
             (Z.to_nat (len chunks - start_index))) by lia.
  rewrite range_cons by lia. simpl.
  rewrite getitem_past_end. reflexivity.
Qed.

Lemma print_document_segment_past_end_witness :
  print_document_segment ["a"; "b"; "c"]%string 1 5 =
  (segment_printout ["a"; "b"; "c"]%string 1 (len ["a"; "b"; "c"]%string)
   ++ [chunk_header (len ["a"; "b"; "c"]%string)], Some IndexError).
Proof.
  apply (print_document_segment_past_end ["a"; "b"; "c"]%string 1 5).
  - lia.
  - unfold len. simpl. lia.
  - unfold len. simpl. lia.
Defined.
